(** * Token-bucket rate limiter of [app.py]

    A shallow embedding of [check_rate_limit] and of the [/validate]
    endpoint that calls it.

    Modelling choices.
    - The module-level dict [rate_limit_store] is a [gmap string bucket]
      threaded through every call; a bucket (the inner dict with the two
      keys "tokens" and "last_refill") is a record.  The source mutates the
      inner dict through the alias [bucket]; here the updated record is
      written back under the same key.
    - [time.time()] is read once per call; the reading is the argument
      [current_time].  The source puts no constraint on successive
      readings (it is the wall clock), and neither does the model.
    - Python numbers are exact rationals [Q]: the arithmetic of the source
      ([-], [*], [+], [min], [>=], [/], [round]) is kept operation by
      operation, without the rounding error of binary64.  Equality of
      token counts and times is therefore [Qeq] ([==]).
    - [round(x)] with one argument returns an [int] and rounds halves to
      the even neighbour; it is [py_round].
    - The module [Binary64] holds the same function over IEEE 754 double
      precision (the operations of [SpecFloat] at precision 53), the number
      type the source runs on.  It is used to replay, bit for bit, the
      concrete traces that the statements below name; the theorems are
      about the exact model. *)

From stdpp Require Import gmap strings pretty.
From Stdlib Require Import QArith Qround Qminmax Lqa SpecFloat Ascii.

Local Open Scope Q_scope.

(** ** Configuration *)

Definition MAX_TOKENS : Q := 9.
Definition REFILL_RATE : Q := 41 / 60.

(** ** Data model *)

Record bucket : Type := Bucket { tokens : Q; last_refill : Q }.

(** [round(x)]: nearest integer, ties to even. *)
Definition py_round (x : Q) : Z :=
  let f := Qfloor x in
  match Qcompare (x - inject_Z f) (1 # 2) with
  | Lt => f
  | Gt => (f + 1)%Z
  | Eq => if Z.even f then f else (f + 1)%Z
  end.

(** ** The token bucket check *)

(** Lines 60-66: the entry for [user_key], created full and stamped with
    the current reading when the key is new. *)
Definition lookup_or_create (user_key : string) (current_time : Q)
    (rate_limit_store : gmap string bucket) : bucket :=
  match rate_limit_store !! user_key with
  | Some b => b
  | None => {| tokens := MAX_TOKENS; last_refill := current_time |}
  end.

Definition check_rate_limit (user_key : string) (current_time : Q)
    (rate_limit_store : gmap string bucket)
    : (bool * Z) * gmap string bucket :=
  let bucket := lookup_or_create user_key current_time rate_limit_store in
  (* Refill tokens *)
  let elapsed := current_time - last_refill bucket in
  let refill := elapsed * REFILL_RATE in
  let bucket := {| tokens := Qmin MAX_TOKENS (tokens bucket + refill);
                   last_refill := last_refill bucket |} in
  let bucket := {| tokens := tokens bucket; last_refill := current_time |} in
  if Qle_bool 1 (tokens bucket) then
    let bucket := {| tokens := tokens bucket - 1;
                     last_refill := last_refill bucket |} in
    ((true, 0%Z), <[user_key := bucket]> rate_limit_store)
  else
    (* Calculate retry time *)
    let retry_after := (1 - tokens bucket) / REFILL_RATE in
    ((false, py_round retry_after), <[user_key := bucket]> rate_limit_store).

(** The calls of one process, in order; each call carries its key and the
    clock reading it took. *)
Fixpoint run (calls : list (string * Q)) (rate_limit_store : gmap string bucket)
    : list (bool * Z) * gmap string bucket :=
  match calls with
  | [] => ([], rate_limit_store)
  | (user_key, current_time) :: rest =>
      let '(r, s) := check_rate_limit user_key current_time rate_limit_store in
      let '(rs, s') := run rest s in
      (r :: rs, s')
  end.

(** ** The endpoint *)

Record RequestBody : Type :=
  { userId : string; input : string; category : string }.

(** A JSON reply: status code, the fields of its body, and its headers.
    [sanitizedOutput] is present on the allowed path only. *)
Record response : Type := Response {
  status_code : Z;
  blocked : bool;
  reason : string;
  sanitizedOutput : option string;
  confidence : Q;
  headers : list (string * string) }.

(** [raise HTTPException(status_code, detail)]. *)
Record HTTPException : Type :=
  { exc_status_code : Z; detail : string }.

(** [validate]; [client_ip] is [request.client.host].  The two logging
    calls write no state the function reads and are left out;
    [str(retry_after)] is stdpp's [pretty] on [Z]. *)
Definition validate (data : RequestBody) (client_ip : string) (current_time : Q)
    (rate_limit_store : gmap string bucket)
    : (HTTPException + response) * gmap string bucket :=
  if negb (String.eqb (category data) "Rate Limiting") then
    (inl {| exc_status_code := 400; detail := "Invalid category" |},
     rate_limit_store)
  else
    (* Identify client (userId + IP) *)
    let user_key := userId data +:+ ":" +:+ client_ip in
    let '((allowed, retry_after), rate_limit_store) :=
      check_rate_limit user_key current_time rate_limit_store in
    if negb allowed then
      (inr {| status_code := 429;
              blocked := true;
              reason := "Rate limit exceeded";
              sanitizedOutput := None;
              confidence := 99 / 100;
              headers := [("Retry-After"%string, pretty retry_after)] |},
       rate_limit_store)
    else
      (* If allowed *)
      (inr {| status_code := 200;
              blocked := false;
              reason := "Input passed all security checks";
              sanitizedOutput := Some (input data);
              confidence := 95 / 100;
              headers := [] |},
       rate_limit_store).

(** ** The same check in double precision *)

Module Binary64.

Definition prec : Z := 53.
Definition emax : Z := 1024.

Definition float_add := SFadd prec emax.
Definition float_sub := SFsub prec emax.
Definition float_mul := SFmul prec emax.
Definition float_div := SFdiv prec emax.

(** An [int] operand of a float operation; exact below 2^53. *)
Definition of_int (z : Z) : spec_float := binary_normalize prec emax z 0 false.

Definition MAX_TOKENS : spec_float := of_int 9.
Definition REFILL_RATE : spec_float := float_div (of_int 41) (of_int 60).

Record bucket : Type := Bucket { tokens : spec_float; last_refill : spec_float }.

(** The rational a finite float stands for. *)
Definition to_Q (x : spec_float) : option Q :=
  match x with
  | S754_zero _ => Some 0
  | S754_finite s m e => Some (inject_Z (cond_Zopp s (Zpos m)) * Qpower 2 e)
  | S754_infinity _ | S754_nan => None
  end.

(** [round(x)]; [None] is the exception raised on an infinity or a NaN. *)
Definition py_round_float (x : spec_float) : option Z :=
  py_round <$> to_Q x.

(** [min(a, b)] of two arguments: [b] when [b < a], else [a]. *)
Definition py_min (a b : spec_float) : spec_float :=
  if SFltb b a then b else a.

Definition check_rate_limit (user_key : string) (current_time : spec_float)
    (rate_limit_store : gmap string bucket)
    : option (bool * Z) * gmap string bucket :=
  let bucket :=
    match rate_limit_store !! user_key with
    | Some b => b
    | None => {| tokens := MAX_TOKENS; last_refill := current_time |}
    end in
  let elapsed := float_sub current_time (last_refill bucket) in
  let refill := float_mul elapsed REFILL_RATE in
  let bucket := {| tokens := py_min MAX_TOKENS (float_add (tokens bucket) refill);
                   last_refill := last_refill bucket |} in
  let bucket := {| tokens := tokens bucket; last_refill := current_time |} in
  if SFleb (of_int 1) (tokens bucket) then
    let bucket := {| tokens := float_sub (tokens bucket) (of_int 1);
                     last_refill := last_refill bucket |} in
    (Some (true, 0%Z), <[user_key := bucket]> rate_limit_store)
  else
    let retry_after := float_div (float_sub (of_int 1) (tokens bucket)) REFILL_RATE in
    (pair false <$> py_round_float retry_after,
     <[user_key := bucket]> rate_limit_store).

Fixpoint run (calls : list (string * spec_float))
    (rate_limit_store : gmap string bucket)
    : list (option (bool * Z)) * gmap string bucket :=
  match calls with
  | [] => ([], rate_limit_store)
  | (user_key, current_time) :: rest =>
      let '(r, s) := check_rate_limit user_key current_time rate_limit_store in
      let '(rs, s') := run rest s in
      (r :: rs, s')
  end.

(** The token count stored for a key, as a rational. *)
Definition tokens_of (user_key : string) (s : gmap string bucket) : option Q :=
  s !! user_key ≫= λ b, to_Q (tokens b).

End Binary64.

(** ** Vocabulary of the properties *)

(** The token count after the refill of lines 69-72, before the decision. *)
Definition refilled (b : bucket) (current_time : Q) : Q :=
  Qmin MAX_TOKENS (tokens b + (current_time - last_refill b) * REFILL_RATE).

(** The value of the local [elapsed] (line 69) in a call. *)
Definition elapsed_of (user_key : string) (current_time : Q)
    (rate_limit_store : gmap string bucket) : Q :=
  current_time - last_refill (lookup_or_create user_key current_time rate_limit_store).

(** The store holds, for [k], a bucket with [q] tokens stamped [T]. *)
Definition holds (k : string) (s : gmap string bucket) (q T : Q) : Prop :=
  exists b, s !! k = Some b /\ tokens b == q /\ last_refill b == T.

(** A key is fresh and full at [T]: not seen yet (the call creates the
    bucket full and stamped [T]), or stored full with a stamp not after
    [T]. *)
Definition fresh_full (k : string) (T : Q) (s : gmap string bucket) : Prop :=
  match s !! k with
  | None => True
  | Some b => tokens b == MAX_TOKENS /\ last_refill b <= T
  end.

(** Successive clock readings never step back: each one is at least the
    one before it, the first at least [lo]. *)
Fixpoint clock_from (lo : Q) (readings : list Q) : Prop :=
  match readings with
  | [] => True
  | t :: rest => lo <= t /\ clock_from t rest
  end.

Definition nondecreasing (readings : list Q) : Prop :=
  match readings with
  | [] => True
  | t :: rest => clock_from t rest
  end.

(** Every stored bucket has its count within [[0, MAX_TOKENS]] and a stamp
    not after [hi]. *)
Definition store_ok (hi : Q) (s : gmap string bucket) : Prop :=
  forall k b, s !! k = Some b ->
    0 <= tokens b <= MAX_TOKENS /\ last_refill b <= hi.

(** Every stored count is at most the capacity. *)
Definition capped (s : gmap string bucket) : Prop :=
  forall k b, s !! k = Some b -> tokens b <= MAX_TOKENS.

(** The calls of a run made for [k], in order. *)
Definition calls_of (k : string) (calls : list (string * Q)) : list (string * Q) :=
  filter (fun c => fst c = k) calls.

(** The verdicts a run returned to its calls for [k], in order. *)
Fixpoint verdicts_of (k : string) (calls : list (string * Q))
    (verdicts : list (bool * Z)) : list (bool * Z) :=
  match calls, verdicts with
  | (k', _) :: calls', v :: verdicts' =>
      if decide (k' = k)
      then v :: verdicts_of k calls' verdicts'
      else verdicts_of k calls' verdicts'
  | _, _ => []
  end.

(** How many of the verdicts admit. *)
Definition admissions (verdicts : list (bool * Z)) : nat :=
  length (filter (fun v => fst v = true) verdicts).

(** The clock readings of the first and of the last call for [k]. *)
Definition first_reading (k : string) (calls : list (string * Q)) : option Q :=
  head (map snd (calls_of k calls)).

Definition last_reading (k : string) (calls : list (string * Q)) : option Q :=
  last (map snd (calls_of k calls)).

(** The key [validate] builds from the request. *)
Definition user_key_of (userId client_ip : string) : string :=
  userId +:+ ":" +:+ client_ip.

(** The string has no colon in it. *)
Fixpoint colon_free (x : string) : Prop :=
  match x with
  | EmptyString => True
  | String c rest => c <> ":"%char /\ colon_free rest
  end.

(** A clock reading in double precision that is a number: not an infinity,
    not a NaN. *)
Definition finite_float (x : spec_float) : Prop :=
  match x with
  | S754_zero _ | S754_finite _ _ _ => True
  | S754_infinity _ | S754_nan => False
  end.

(** What [Binary64.check_rate_limit] computes from a bucket with [q] tokens
    when the elapsed time is +0: the verdict and the count it stores. *)
Definition same_instant_step (q : spec_float) : option (bool * Z) * spec_float :=
  let refill := Binary64.float_mul (S754_zero false) Binary64.REFILL_RATE in
  let t := Binary64.py_min Binary64.MAX_TOKENS (Binary64.float_add q refill) in
  if SFleb (Binary64.of_int 1) t then
    (Some (true, 0%Z), Binary64.float_sub t (Binary64.of_int 1))
  else
    (pair false <$> Binary64.py_round_float
                      (Binary64.float_div (Binary64.float_sub (Binary64.of_int 1) t)
                         Binary64.REFILL_RATE),
     t).

Fixpoint same_instant_verdicts (n : nat) (q : spec_float)
    : list (option (bool * Z)) :=
  match n with
  | O => []
  | S n' => fst (same_instant_step q)
            :: same_instant_verdicts n' (snd (same_instant_step q))
  end.

(** Successive readings are at least [gap] apart, the first at least [gap]
    after [lo]. *)
Fixpoint spaced_from (gap lo : Q) (readings : list Q) : Prop :=
  match readings with
  | [] => True
  | t :: rest => lo + gap <= t /\ spaced_from gap t rest
  end.

Definition spaced (gap : Q) (readings : list Q) : Prop :=
  match readings with
  | [] => True
  | t :: rest => spaced_from gap t rest
  end.

(** ** Sanity checks of the model *)

(** One key whose bucket was emptied at time 3. *)
Definition drained_store : gmap string bucket :=
  {["u:1"%string := Bucket 0 3]}.

Example run_ten :
  fst (run (replicate 10 ("u:10.0.0.1"%string, 5 # 1)) ∅)
  = replicate 9 (true, 0%Z) ++ [(false, 1%Z)].
Proof. vm_compute. reflexivity. Qed.

(** The traces named in the statements below, replayed in double
    precision: the verdicts are those of the exact model. *)
Example binary64_ten_calls :
  fst (Binary64.run (replicate 10 ("alice:10.0.0.1"%string,
                                   Binary64.of_int 1700000000)) ∅)
  = replicate 9 (Some (true, 0%Z)) ++ [Some (false, 1%Z)].
Proof. vm_compute. reflexivity. Qed.

Example binary64_clock_step_back :
  Binary64.run [("u:1"%string, Binary64.of_int 100);
                ("u:1"%string, Binary64.of_int 40)] ∅
  = ([Some (true, 0%Z); Some (false, 50%Z)],
     {["u:1"%string := Binary64.Bucket (Binary64.of_int (-33)) (Binary64.of_int 40)]}).
Proof. vm_compute. reflexivity. Qed.

Example exact_clock_step_back :
  fst (run [("u:1"%string, 100); ("u:1"%string, 40)] ∅)
  = [(true, 0%Z); (false, 50%Z)].
Proof. vm_compute. reflexivity. Qed.

Example binary64_zero_retry :
  fst (Binary64.run (replicate 9 ("u:1"%string, Binary64.of_int 0)
                     ++ [("u:1"%string,
                          Binary64.float_div (Binary64.of_int 6) (Binary64.of_int 5))]) ∅)
  = replicate 9 (Some (true, 0%Z)) ++ [Some (false, 0%Z)].
Proof. vm_compute. reflexivity. Qed.

Example binary64_two_seconds_after_exhaustion :
  exists q,
    fst (Binary64.check_rate_limit "u:1" (Binary64.of_int 5)
           {["u:1"%string := Binary64.Bucket (Binary64.of_int 0) (Binary64.of_int 3)]})
    = Some (true, 0%Z)
    /\ Binary64.tokens_of "u:1"
         (snd (Binary64.check_rate_limit "u:1" (Binary64.of_int 5)
                 {["u:1"%string := Binary64.Bucket (Binary64.of_int 0) (Binary64.of_int 3)]}))
       = Some q
    /\ (365 # 1000) <= q < (375 # 1000).
Proof.
  eexists. split; [vm_compute; reflexivity|].
  split; [vm_compute; reflexivity|].
  split; [vm_compute; discriminate|vm_compute; reflexivity].
Qed.

(** ** Rounding *)

Section Rounding.

Local Ltac push_inject :=
  repeat rewrite inject_Z_plus in *; change (inject_Z 1) with 1 in *;
  change (inject_Z 0) with 0 in *.

Lemma py_round_floor_cases (x : Q) :
  let f := Qfloor x in
  inject_Z f <= x < inject_Z f + 1.
Proof.
  cbv zeta. split; [apply Qfloor_le|].
  pose proof (Qlt_floor x) as H. rewrite inject_Z_plus in H. exact H.
Qed.

#[global] Instance py_round_comp : Proper (Qeq ==> eq) py_round.
Proof.
  intros x y Hxy. unfold py_round.
  rewrite (Qfloor_comp _ _ Hxy).
  assert (Hc : Qcompare (x - inject_Z (Qfloor y)) (1 # 2)
               = Qcompare (y - inject_Z (Qfloor y)) (1 # 2)).
  { apply Qcompare_comp; [rewrite Hxy|]; reflexivity. }
  rewrite Hc. reflexivity.
Qed.

(** The result is a nearest integer. *)
Lemma py_round_nearest (x : Q) :
  inject_Z (py_round x) - (1 # 2) <= x <= inject_Z (py_round x) + (1 # 2).
Proof.
  unfold py_round. pose proof (py_round_floor_cases x) as [Hlo Hhi].
  cbv zeta in Hlo, Hhi.
  destruct (Qcompare_spec (x - inject_Z (Qfloor x)) (1 # 2)) as [He|Hl|Hg].
  - destruct (Z.even (Qfloor x)); push_inject; lra.
  - lra.
  - push_inject. lra.
Qed.

(** On a tie the even neighbour is taken. *)
Lemma py_round_tie_even (x : Q) (n : Z) :
  x == inject_Z n + (1 # 2) -> Z.even (py_round x) = true.
Proof.
  intros Hx.
  assert (Hf : Qfloor x = n).
  { pose proof (py_round_floor_cases x) as [Hlo Hhi]. cbv zeta in Hlo, Hhi.
    assert (inject_Z (Qfloor x) < inject_Z (n + 1)) as H1
      by (push_inject; lra).
    assert (inject_Z n < inject_Z (Qfloor x + 1)) as H2
      by (push_inject; lra).
    rewrite <- Zlt_Qlt in H1, H2. lia. }
  unfold py_round. rewrite Hf.
  destruct (Qcompare_spec (x - inject_Z n) (1 # 2)) as [He|Hl|Hg]; try lra.
  destruct (Z.even n) eqn:En; [exact En|].
  rewrite Z.even_add, En. reflexivity.
Qed.

Lemma py_round_mono (x y : Q) : x <= y -> (py_round x <= py_round y)%Z.
Proof.
  intros Hxy.
  pose proof (Qfloor_resp_le _ _ Hxy) as Hf.
  pose proof (py_round_floor_cases x) as [Hxl Hxh].
  pose proof (py_round_floor_cases y) as [Hyl Hyh].
  cbv zeta in *.
  destruct (Z.eq_dec (Qfloor x) (Qfloor y)) as [E|NE].
  - unfold py_round. rewrite <- E in *.
    destruct (Qcompare_spec (x - inject_Z (Qfloor x)) (1 # 2)) as [He|Hl|Hg];
    destruct (Qcompare_spec (y - inject_Z (Qfloor x)) (1 # 2)) as [He'|Hl'|Hg'];
      try lra; destruct (Z.even (Qfloor x)); lia.
  - assert (py_round x <= Qfloor x + 1)%Z as H1.
    { unfold py_round.
      destruct (Qcompare (x - inject_Z (Qfloor x)) (1 # 2));
        [destruct (Z.even (Qfloor x))| |]; lia. }
    assert (Qfloor y <= py_round y)%Z as H2.
    { unfold py_round.
      destruct (Qcompare (y - inject_Z (Qfloor y)) (1 # 2));
        [destruct (Z.even (Qfloor y))| |]; lia. }
    lia.
Qed.

Lemma py_round_Z (n : Z) : py_round (inject_Z n) = n.
Proof.
  unfold py_round. rewrite Qfloor_Z.
  destruct (Qcompare_spec (inject_Z n - inject_Z n) (1 # 2)); try lra.
  reflexivity.
Qed.

Lemma py_round_nonneg (x : Q) : 0 <= x -> (0 <= py_round x)%Z.
Proof.
  intros H. rewrite <- (py_round_Z 0). apply py_round_mono. exact H.
Qed.

(** [round(x) = 0] exactly on [[-1/2, 1/2]]. *)
Lemma py_round_zero_iff (x : Q) :
  py_round x = 0%Z <-> - (1 # 2) <= x <= 1 # 2.
Proof.
  split.
  - intros H. pose proof (py_round_nearest x) as Hn. rewrite H in Hn.
    change (inject_Z 0) with 0 in Hn. lra.
  - intros [Hlo Hhi].
    assert (Hle : (py_round x <= py_round (1 # 2))%Z) by (apply py_round_mono; lra).
    assert (Hge : (py_round (- (1 # 2)) <= py_round x)%Z) by (apply py_round_mono; lra).
    change (py_round (1 # 2)) with 0%Z in Hle.
    change (py_round (- (1 # 2))) with 0%Z in Hge. lia.
Qed.

End Rounding.

(** ** Basic facts about one call *)

Ltac case_min :=
  match goal with
  | |- context [Qmin ?a ?b] =>
      let Hc := fresh "Hmin" in let He := fresh "Emin" in
      destruct (Q.min_spec a b) as [[Hc He]|[Hc He]]
  | H : context [Qmin ?a ?b] |- _ =>
      let Hc := fresh "Hmin" in let He := fresh "Emin" in
      destruct (Q.min_spec a b) as [[Hc He]|[Hc He]]
  end.

(** [lra] reads [41 # 60], not the quotient [41 / 60] of the source. *)
Ltac unfold_config :=
  unfold MAX_TOKENS, REFILL_RATE in *; change (41 / 60) with (41 # 60) in *.

Section OneCall.

Implicit Types (k : string) (now : Q) (s : gmap string bucket) (b : bucket).

Lemma refill_rate_pos : 0 < REFILL_RATE.
Proof. reflexivity. Qed.

Lemma refill_nonneg (elapsed : Q) : 0 <= elapsed -> 0 <= elapsed * REFILL_RATE.
Proof.
  intros H. apply Qmult_le_0_compat; [exact H|].
  apply Qlt_le_weak, refill_rate_pos.
Qed.

Lemma check_rate_limit_eq k now s :
  check_rate_limit k now s =
  let t := refilled (lookup_or_create k now s) now in
  if Qle_bool 1 t
  then ((true, 0%Z), <[k := Bucket (t - 1) now]> s)
  else ((false, py_round ((1 - t) / REFILL_RATE)), <[k := Bucket t now]> s).
Proof. reflexivity. Qed.

Lemma check_admits k now s :
  1 <= refilled (lookup_or_create k now s) now ->
  check_rate_limit k now s =
  ((true, 0%Z),
   <[k := Bucket (refilled (lookup_or_create k now s) now - 1) now]> s).
Proof.
  intros H. rewrite check_rate_limit_eq. cbv zeta.
  apply Qle_bool_iff in H. rewrite H. reflexivity.
Qed.

Lemma check_denies k now s :
  refilled (lookup_or_create k now s) now < 1 ->
  check_rate_limit k now s =
  ((false, py_round ((1 - refilled (lookup_or_create k now s) now) / REFILL_RATE)),
   <[k := Bucket (refilled (lookup_or_create k now s) now) now]> s).
Proof.
  intros H. rewrite check_rate_limit_eq. cbv zeta.
  destruct (Qle_bool 1 _) eqn:E; [|reflexivity].
  apply Qle_bool_iff in E. lra.
Qed.

Lemma admitted_iff k now s :
  fst (fst (check_rate_limit k now s)) = true
  <-> 1 <= refilled (lookup_or_create k now s) now.
Proof.
  rewrite check_rate_limit_eq. cbv zeta.
  destruct (Qle_bool 1 _) eqn:E; simpl.
  - apply Qle_bool_iff in E. tauto.
  - split; [discriminate|]. intros H. apply Qle_bool_iff in H. congruence.
Qed.

Lemma denied_iff k now s :
  fst (fst (check_rate_limit k now s)) = false
  <-> refilled (lookup_or_create k now s) now < 1.
Proof.
  pose proof (admitted_iff k now s) as H.
  destruct (fst (fst (check_rate_limit k now s))).
  - split; [discriminate|]. intros Hlt. assert (1 <= refilled (lookup_or_create k now s) now) by tauto. lra.
  - split; [|reflexivity]. intros _.
    destruct (Qlt_le_dec (refilled (lookup_or_create k now s) now) 1) as [|Hle]; [assumption|].
    apply H in Hle. discriminate.
Qed.

Lemma lookup_or_create_Some k now s b :
  s !! k = Some b -> lookup_or_create k now s = b.
Proof. intros H. unfold lookup_or_create. rewrite H. reflexivity. Qed.

Lemma lookup_or_create_None k now s :
  s !! k = None -> lookup_or_create k now s = Bucket MAX_TOKENS now.
Proof. intros H. unfold lookup_or_create. rewrite H. reflexivity. Qed.

(** The refill never takes the count above the capacity. *)
Lemma refilled_le_capacity b now : refilled b now <= MAX_TOKENS.
Proof. unfold refilled. apply Q.le_min_l. Qed.

Lemma refilled_lower b now :
  0 <= tokens b -> last_refill b <= now -> tokens b <= MAX_TOKENS ->
  tokens b <= refilled b now.
Proof.
  intros H0 Ht Hc. unfold refilled.
  pose proof (refill_nonneg (now - last_refill b)) as Hr.
  case_min; rewrite Emin; lra.
Qed.

(** A new key is always admitted. *)
Lemma refilled_new_key now : refilled (Bucket MAX_TOKENS now) now == MAX_TOKENS.
Proof.
  unfold refilled; simpl. unfold_config. case_min; rewrite Emin; lra.
Qed.

(** The bucket stored for the key of the call, after the call. *)
Lemma lookup_after_call k now s :
  snd (check_rate_limit k now s) !! k =
  Some (Bucket (let t := refilled (lookup_or_create k now s) now in
                if Qle_bool 1 t then t - 1 else t) now).
Proof.
  rewrite check_rate_limit_eq. cbv zeta.
  destruct (Qle_bool 1 _); simpl; apply lookup_insert_eq.
Qed.

(** Every other entry is left alone. *)
Lemma lookup_after_call_ne k k' now s :
  k <> k' -> snd (check_rate_limit k now s) !! k' = s !! k'.
Proof.
  intros Hne. rewrite check_rate_limit_eq. cbv zeta.
  destruct (Qle_bool 1 _); simpl; apply lookup_insert_ne; exact Hne.
Qed.

(** The verdict depends on the store through the entry of the key only. *)
Lemma verdict_local k now s1 s2 :
  s1 !! k = s2 !! k ->
  fst (check_rate_limit k now s1) = fst (check_rate_limit k now s2).
Proof.
  intros H. rewrite !check_rate_limit_eq. cbv zeta.
  unfold lookup_or_create. rewrite H.
  destruct (Qle_bool 1 _); reflexivity.
Qed.

End OneCall.

(** ** Sequences of calls *)

Section Runs.

Implicit Types (k : string) (now T q : Q) (s : gmap string bucket) (b : bucket).

Lemma run_cons k now calls s :
  run ((k, now) :: calls) s =
  (fst (check_rate_limit k now s) :: fst (run calls (snd (check_rate_limit k now s))),
   snd (run calls (snd (check_rate_limit k now s)))).
Proof.
  simpl. destruct (check_rate_limit k now s) as [r s1]. simpl.
  destruct (run calls s1) as [rs s2]. reflexivity.
Qed.

Lemma run_app calls1 calls2 s :
  run (calls1 ++ calls2) s =
  (fst (run calls1 s) ++ fst (run calls2 (snd (run calls1 s))),
   snd (run calls2 (snd (run calls1 s)))).
Proof.
  revert s. induction calls1 as [|[k now] calls1 IH]; intros s.
  - simpl. destruct (run calls2 s); reflexivity.
  - rewrite <- app_comm_cons, !run_cons, IH. reflexivity.
Qed.

(** At the instant of its stamp a bucket gains nothing. *)
Lemma refilled_same_instant b T :
  last_refill b == T -> tokens b <= MAX_TOKENS -> refilled b T == tokens b.
Proof.
  intros Ht Hc. unfold refilled. unfold_config.
  case_min; rewrite Emin; lra.
Qed.

Lemma drain_step k s q T :
  holds k s q T -> 1 <= q <= MAX_TOKENS ->
  fst (check_rate_limit k T s) = (true, 0%Z)
  /\ holds k (snd (check_rate_limit k T s)) (q - 1) T.
Proof.
  intros (b & Hb & Hq & HT) [Hq1 Hq9].
  assert (Hr : refilled b T == q).
  { rewrite refilled_same_instant; [exact Hq|exact HT|lra]. }
  rewrite check_admits; rewrite (lookup_or_create_Some _ _ _ _ Hb); [|lra].
  split; [reflexivity|]. simpl.
  eexists. split; [apply lookup_insert_eq|]. simpl. split; [lra|reflexivity].
Qed.

Lemma throttle_step k s T :
  holds k s 0 T ->
  fst (check_rate_limit k T s) = (false, 1%Z)
  /\ holds k (snd (check_rate_limit k T s)) 0 T.
Proof.
  intros (b & Hb & Hq & HT).
  assert (Hr : refilled b T == 0).
  { rewrite refilled_same_instant; [exact Hq|exact HT|unfold_config; lra]. }
  rewrite check_denies; rewrite (lookup_or_create_Some _ _ _ _ Hb); [|lra].
  simpl. split.
  - f_equal. rewrite Hr. reflexivity.
  - eexists. split; [apply lookup_insert_eq|]. simpl. split; [lra|reflexivity].
Qed.

(** [n] tokens buy exactly [n] admissions at one instant. *)
Lemma drain k T (n : nat) : forall s,
  holds k s (inject_Z (Z.of_nat n)) T -> inject_Z (Z.of_nat n) <= MAX_TOKENS ->
  fst (run (replicate n (k, T)) s) = replicate n (true, 0%Z)
  /\ holds k (snd (run (replicate n (k, T)) s)) 0 T.
Proof.
  induction n as [|n IH]; intros s Hh Hn.
  - simpl. split; [reflexivity|exact Hh].
  - assert (Hs : inject_Z (Z.of_nat (S n)) == inject_Z (Z.of_nat n) + 1).
    { rewrite Nat2Z.inj_succ. unfold Z.succ. rewrite inject_Z_plus. reflexivity. }
    assert (0 <= inject_Z (Z.of_nat n)).
    { change 0 with (inject_Z 0). rewrite <- Zle_Qle. lia. }
    destruct (drain_step k s _ T Hh) as [Hv Hh']; [lra|].
    change (replicate (S n) (k, T)) with ((k, T) :: replicate n (k, T)).
    rewrite run_cons. simpl fst. simpl snd. rewrite Hv.
    destruct (IH (snd (check_rate_limit k T s))) as [Hvs Hh''].
    + destruct Hh' as (b & ? & ? & ?). exists b. repeat split; try assumption. lra.
    + lra.
    + rewrite Hvs. split; [reflexivity|exact Hh''].
Qed.

(** With the bucket empty, every further call at that instant is refused. *)
Lemma throttle k T (m : nat) : forall s,
  holds k s 0 T ->
  fst (run (replicate m (k, T)) s) = replicate m (false, 1%Z)
  /\ holds k (snd (run (replicate m (k, T)) s)) 0 T.
Proof.
  induction m as [|m IH]; intros s Hh.
  - simpl. split; [reflexivity|exact Hh].
  - destruct (throttle_step k s T Hh) as [Hv Hh'].
    change (replicate (S m) (k, T)) with ((k, T) :: replicate m (k, T)).
    rewrite run_cons. simpl fst. simpl snd. rewrite Hv.
    destruct (IH _ Hh') as [Hvs Hh'']. rewrite Hvs. split; [reflexivity|exact Hh''].
Qed.

Lemma fresh_full_refilled k T s :
  fresh_full k T s -> refilled (lookup_or_create k T s) T == MAX_TOKENS.
Proof.
  unfold fresh_full, lookup_or_create. destruct (s !! k) as [b|].
  - intros [Hq Ht]. unfold refilled.
    pose proof (refill_nonneg (T - last_refill b)) as Hr.
    case_min; rewrite Emin; unfold_config; lra.
  - intros _. apply refilled_new_key.
Qed.

(** From a fresh full bucket, [9 + m] calls at one instant: nine
    admissions, then [m] refusals with a retry time of one second. *)
Lemma burst_then_throttle k T s (m : nat) :
  fresh_full k T s ->
  fst (run (replicate (9 + m) (k, T)) s)
  = replicate 9 (true, 0%Z) ++ replicate m (false, 1%Z).
Proof.
  intros Hf. pose proof (fresh_full_refilled k T s Hf) as Hr.
  change (replicate (9 + m) (k, T)) with ((k, T) :: replicate (8 + m) (k, T)).
  rewrite run_cons. cbn [fst].
  assert (Hv1 : fst (check_rate_limit k T s) = (true, 0%Z)).
  { rewrite check_admits by (rewrite Hr; unfold_config; lra). reflexivity. }
  assert (Hh1 : holds k (snd (check_rate_limit k T s)) (inject_Z (Z.of_nat 8)) T).
  { rewrite check_admits by (rewrite Hr; unfold_config; lra).
    eexists. split; [apply lookup_insert_eq|]. simpl.
    split; [rewrite Hr; reflexivity|reflexivity]. }
  rewrite Hv1, replicate_add, run_app. cbn [fst].
  destruct (drain k T 8 _ Hh1) as [Hv2 Hh2]; [compute; discriminate|].
  rewrite Hv2.
  destruct (throttle k T m _ Hh2) as [Hv3 _]. rewrite Hv3. reflexivity.
Qed.

End Runs.

(** C1. From a fresh full bucket (tokens = capacity = 9), nine consecutive
    calls for the key at one instant are all admitted, and the tenth call at
    that instant is refused with a retry time greater than zero. *)
Theorem capacity_burst_then_denial (k : string) (T : Q) (s : gmap string bucket) :
  fresh_full k T s ->
  exists r : Z,
    fst (run (replicate 10 (k, T)) s) = replicate 9 (true, 0%Z) ++ [(false, r)]
    /\ (0 < r)%Z.
Proof.
  intros Hf. exists 1%Z. split; [|lia].
  exact (burst_then_throttle k T s 1 Hf).
Qed.

Lemma capacity_burst_then_denial_witness :
  fresh_full "alice:10.0.0.1" (1700000000 # 1) ∅
  /\ exists r : Z,
       fst (run (replicate 10 ("alice:10.0.0.1"%string, 1700000000 # 1)) ∅)
       = replicate 9 (true, 0%Z) ++ [(false, r)] /\ (0 < r)%Z.
Proof.
  split.
  - exact I.
  - apply (capacity_burst_then_denial "alice:10.0.0.1" (1700000000 # 1) ∅). exact I.
Defined.

(** ** Frame *)

(** C8. For two distinct keys A and B, a call for A leaves the bucket
    stored for B (tokens and last_refill) unchanged, and any later call for
    B returns the same verdict, and stores the same bucket for B, as it would
    have without the call for A. *)
Theorem per_key_independence (A B : string) (now : Q) (s : gmap string bucket) :
  A <> B ->
  snd (check_rate_limit A now s) !! B = s !! B
  /\ forall now' : Q,
       fst (check_rate_limit B now' (snd (check_rate_limit A now s)))
       = fst (check_rate_limit B now' s)
       /\ snd (check_rate_limit B now' (snd (check_rate_limit A now s))) !! B
          = snd (check_rate_limit B now' s) !! B.
Proof.
  intros Hne.
  pose proof (lookup_after_call_ne A B now s Hne) as Hframe.
  split; [exact Hframe|]. intros now'. split.
  - apply verdict_local. exact Hframe.
  - rewrite !lookup_after_call. unfold lookup_or_create. rewrite Hframe.
    reflexivity.
Qed.

Lemma per_key_independence_witness :
  "alice:10.0.0.1"%string <> "bob:10.0.0.2"%string
  /\ snd (check_rate_limit "alice:10.0.0.1" 7 {["bob:10.0.0.2"%string := Bucket 3 5]})
       !! "bob:10.0.0.2"%string
     = Some (Bucket 3 5).
Proof.
  assert (Hne : "alice:10.0.0.1"%string <> "bob:10.0.0.2"%string) by discriminate.
  split; [exact Hne|].
  rewrite (proj1 (per_key_independence "alice:10.0.0.1" "bob:10.0.0.2" 7
                    {["bob:10.0.0.2"%string := Bucket 3 5]} Hne)).
  reflexivity.
Defined.

(** ** Refused calls *)

Section Denials.

Implicit Types (k : string) (now : Q) (s : gmap string bucket) (b : bucket).

(** A refused call found its bucket in the store: a new key is admitted. *)
Lemma denied_key_known k now s r s' :
  check_rate_limit k now s = ((false, r), s') ->
  exists old, s !! k = Some old /\ refilled old now < 1
    /\ r = py_round ((1 - refilled old now) / REFILL_RATE)
    /\ s' = <[k := Bucket (refilled old now) now]> s.
Proof.
  intros H. destruct (s !! k) as [old|] eqn:Hk.
  - exists old. split; [reflexivity|].
    assert (Hd : refilled old now < 1).
    { rewrite <- (lookup_or_create_Some k now s old Hk).
      apply denied_iff. rewrite H. reflexivity. }
    rewrite check_denies in H; rewrite (lookup_or_create_Some k now s old Hk) in *;
      [|exact Hd].
    inversion H. auto.
  - exfalso. rewrite check_admits in H; [discriminate|].
    rewrite (lookup_or_create_None k now s Hk), refilled_new_key.
    unfold_config. lra.
Qed.

Lemma retry_arg_eq (t : Q) : (1 - t) / REFILL_RATE == (1 - t) * (60 # 41).
Proof. unfold REFILL_RATE. field. Qed.

Lemma refilled_mono b now1 now2 :
  now1 <= now2 -> refilled b now1 <= refilled b now2.
Proof.
  intros H. unfold refilled. unfold_config.
  apply Q.min_le_compat_l. lra.
Qed.

End Denials.

(** C9. A refused call does change the store: the bucket of the key is
    rewritten with tokens = min(capacity, old_tokens + elapsed * refillRate)
    and last_refill = the time of the call; only the decrement by one is
    skipped.  The store differs from the one before whenever the stamp
    moved. *)
Theorem denied_call_stores_refill (k : string) (now : Q)
    (s s' : gmap string bucket) (r : Z) :
  check_rate_limit k now s = ((false, r), s') ->
  exists old,
    s !! k = Some old
    /\ s' = <[k := {| tokens := Qmin MAX_TOKENS
                                  (tokens old + (now - last_refill old) * REFILL_RATE);
                      last_refill := now |}]> s
    /\ (~ last_refill old == now -> s' <> s).
Proof.
  intros H. destruct (denied_key_known k now s r s' H) as (old & Hk & _ & _ & Hs').
  exists old. split; [exact Hk|]. split; [exact Hs'|].
  intros Hstamp Heq. apply Hstamp.
  assert (Hl : s' !! k = Some (Bucket (refilled old now) now))
    by (rewrite Hs'; apply lookup_insert_eq).
  rewrite Heq, Hk in Hl. injection Hl as ->. simpl. reflexivity.
Qed.

Lemma denied_call_stores_refill_witness :
  check_rate_limit "u:1" 4 drained_store
  = ((false, 0%Z), snd (check_rate_limit "u:1" 4 drained_store))
  /\ exists old,
       drained_store !! "u:1"%string = Some old
       /\ snd (check_rate_limit "u:1" 4 drained_store)
          = <["u:1"%string :=
                {| tokens := Qmin MAX_TOKENS
                               (tokens old + (4 - last_refill old) * REFILL_RATE);
                   last_refill := 4 |}]> drained_store
       /\ (~ last_refill old == 4 ->
           snd (check_rate_limit "u:1" 4 drained_store) <> drained_store).
Proof.
  assert (H : check_rate_limit "u:1" 4 drained_store
              = ((false, 0%Z), snd (check_rate_limit "u:1" 4 drained_store)))
    by (vm_compute; reflexivity).
  split; [exact H|].
  exact (denied_call_stores_refill "u:1" 4 drained_store _ 0 H).
Defined.



(** C6. From one bucket state, of two refused calls the later one
    (now1 <= now2) gets a retry time that is not larger, and the retry time
    of a refusal is never negative. *)
Theorem retry_after_monotone (k : string) (s s1 s2 : gmap string bucket)
    (now1 now2 : Q) (r1 r2 : Z) :
  now1 <= now2 ->
  check_rate_limit k now1 s = ((false, r1), s1) ->
  check_rate_limit k now2 s = ((false, r2), s2) ->
  (r2 <= r1)%Z /\ (0 <= r1)%Z /\ (0 <= r2)%Z.
Proof.
  intros Hle H1 H2.
  destruct (denied_key_known k now1 s r1 s1 H1) as (old1 & Hk1 & Hlt1 & Hr1 & _).
  destruct (denied_key_known k now2 s r2 s2 H2) as (old2 & Hk2 & Hlt2 & Hr2 & _).
  rewrite Hk1 in Hk2. injection Hk2 as <-.
  pose proof (refilled_mono old1 now1 now2 Hle) as Hm.
  subst r1 r2. repeat split.
  - apply py_round_mono. rewrite !retry_arg_eq. lra.
  - apply py_round_nonneg. rewrite retry_arg_eq. lra.
  - apply py_round_nonneg. rewrite retry_arg_eq. lra.
Qed.

Lemma retry_after_monotone_witness :
  3 <= 4
  /\ check_rate_limit "u:1" 3 drained_store
     = ((false, 1%Z), snd (check_rate_limit "u:1" 3 drained_store))
  /\ check_rate_limit "u:1" 4 drained_store
     = ((false, 0%Z), snd (check_rate_limit "u:1" 4 drained_store))
  /\ (0 <= 1)%Z /\ (0 <= 1)%Z /\ (0 <= 0)%Z.
Proof.
  assert (Hle : 3 <= 4) by (compute; discriminate).
  assert (H1 : check_rate_limit "u:1" 3 drained_store
               = ((false, 1%Z), snd (check_rate_limit "u:1" 3 drained_store)))
    by (vm_compute; reflexivity).
  assert (H2 : check_rate_limit "u:1" 4 drained_store
               = ((false, 0%Z), snd (check_rate_limit "u:1" 4 drained_store)))
    by (vm_compute; reflexivity).
  split; [exact Hle|]. split; [exact H1|]. split; [exact H2|].
  exact (retry_after_monotone "u:1" drained_store _ _ 3 4 1 0 Hle H1 H2).
Defined.

(** ** Refill *)



(** ** Zero retry time *)

(** C10. Some refusals carry a retry time of 0: a call whose token count
    after the refill is at least 1 - refillRate/2 and below 1, where
    (1 - tokens) / refillRate rounds to 0, returns admitted = false with
    retryAfterSeconds = 0, and the endpoint answers 429 with the header
    Retry-After: 0.  Such a state is reached from the empty store by nine
    calls at time 0 followed by one call at time 6/5. *)
Theorem denial_with_zero_retry_after :
  (forall (k : string) (now : Q) (s : gmap string bucket),
     1 - REFILL_RATE / 2 <= refilled (lookup_or_create k now s) now < 1 ->
     fst (check_rate_limit k now s) = (false, 0%Z))
  /\ (forall (data : RequestBody) (client_ip : string) (now : Q)
        (s : gmap string bucket),
        String.eqb (category data) "Rate Limiting" = true ->
        fst (check_rate_limit (userId data +:+ ":" +:+ client_ip) now s)
        = (false, 0%Z) ->
        exists rsp, fst (validate data client_ip now s) = inr rsp
          /\ status_code rsp = 429%Z
          /\ headers rsp = [("Retry-After"%string, "0"%string)])
  /\ fst (run (replicate 9 ("u:1"%string, 0) ++ [("u:1"%string, 6 # 5)]) ∅)
     = replicate 9 (true, 0%Z) ++ [(false, 0%Z)].
Proof.
  split; [|split].
  - intros k now s [Hlo Hhi].
    rewrite check_denies by exact Hhi. cbn [fst]. f_equal.
    apply py_round_zero_iff. rewrite retry_arg_eq. unfold_config.
    change ((41 # 60) / 2) with (41 # 120) in Hlo. lra.
  - intros data client_ip now s Hcat Hv. unfold validate. rewrite Hcat. simpl negb.
    cbv iota.
    destruct (check_rate_limit _ now s) as [[allowed retry_after] s'].
    simpl in Hv. injection Hv as -> ->. simpl. eexists. split; [reflexivity|].
    split; reflexivity.
  - vm_compute. reflexivity.
Qed.

Lemma denial_with_zero_retry_after_witness :
  1 - REFILL_RATE / 2 <= refilled (lookup_or_create "u:1" 4 drained_store) 4 < 1
  /\ fst (check_rate_limit "u:1" 4 drained_store) = (false, 0%Z).
Proof.
  assert (H : 1 - REFILL_RATE / 2
              <= refilled (lookup_or_create "u:1" 4 drained_store) 4 < 1).
  { split; vm_compute; [discriminate|reflexivity]. }
  split; [exact H|].
  exact (proj1 denial_with_zero_retry_after "u:1" 4 drained_store H).
Defined.

(** ** Invariants along a run *)

Section Invariants.

Implicit Types (k : string) (now lo hi : Q) (s : gmap string bucket) (b : bucket).

Lemma clock_from_weaken lo lo' readings :
  lo' <= lo -> clock_from lo readings -> clock_from lo' readings.
Proof.
  destruct readings as [|t rest]; simpl; [trivial|].
  intros Hl [Ht Hr]. split; [lra|exact Hr].
Qed.

Lemma clock_from_take lo readings (n : nat) :
  clock_from lo readings -> clock_from lo (take n readings).
Proof.
  revert lo n. induction readings as [|t rest IH]; intros lo [|n]; simpl; try tauto.
  intros [Ht Hr]. split; [exact Ht|]. apply IH. exact Hr.
Qed.

Lemma nondecreasing_take readings (n : nat) :
  nondecreasing readings -> nondecreasing (take n readings).
Proof.
  destruct readings as [|t rest]; destruct n as [|n]; simpl; try tauto.
  apply clock_from_take.
Qed.

Lemma clock_from_extend lo readings :
  clock_from lo readings -> exists hi, clock_from lo (readings ++ [hi]).
Proof.
  revert lo. induction readings as [|t rest IH]; intros lo; simpl.
  - intros _. exists lo. split; [lra|exact I].
  - intros [Ht Hr]. destruct (IH t Hr) as [hi Hhi]. exists hi. split; assumption.
Qed.

Lemma stored_tokens_le_refilled k now s :
  (let t := refilled (lookup_or_create k now s) now in
   if Qle_bool 1 t then t - 1 else t) <= refilled (lookup_or_create k now s) now.
Proof. cbv zeta. destruct (Qle_bool 1 _); lra. Qed.

Lemma check_capped k now s : capped s -> capped (snd (check_rate_limit k now s)).
Proof.
  intros Hs k' b' Hb'. destruct (decide (k = k')) as [<-|Hne].
  - rewrite lookup_after_call in Hb'. injection Hb' as <-. simpl.
    pose proof (stored_tokens_le_refilled k now s) as H1.
    pose proof (refilled_le_capacity (lookup_or_create k now s) now) as H2.
    cbv zeta in H1. lra.
  - rewrite lookup_after_call_ne in Hb' by exact Hne. exact (Hs k' b' Hb').
Qed.

Lemma run_capped calls : forall s, capped s -> capped (snd (run calls s)).
Proof.
  induction calls as [|[k now] calls IH]; intros s Hs; [exact Hs|].
  rewrite run_cons. cbn [snd]. apply IH, check_capped, Hs.
Qed.

Lemma store_ok_weaken lo hi s : lo <= hi -> store_ok lo s -> store_ok hi s.
Proof.
  intros Hle Hs k b Hb. destruct (Hs k b Hb) as [Ht Hl]. split; [exact Ht|lra].
Qed.

Lemma store_ok_empty hi : store_ok hi ∅.
Proof. intros k b Hb. rewrite lookup_empty in Hb. discriminate. Qed.

(** The bucket a call works on, when the stored ones are within bounds. *)
Lemma lookup_or_create_ok lo k now s :
  store_ok lo s -> lo <= now ->
  0 <= tokens (lookup_or_create k now s) <= MAX_TOKENS
  /\ last_refill (lookup_or_create k now s) <= now.
Proof.
  intros Hs Hle. unfold lookup_or_create. destruct (s !! k) as [b|] eqn:Hk.
  - destruct (Hs k b Hk) as [Ht Hl]. split; [exact Ht|lra].
  - simpl. unfold_config. split; lra.
Qed.

(** One call at a reading not before the stamps keeps every count within
    bounds. *)
Lemma check_store_ok lo k now s :
  store_ok lo s -> lo <= now -> store_ok now (snd (check_rate_limit k now s)).
Proof.
  intros Hs Hle k' b' Hb'. destruct (decide (k = k')) as [<-|Hne].
  - rewrite lookup_after_call in Hb'. injection Hb' as <-. simpl.
    destruct (lookup_or_create_ok lo k now s Hs Hle) as [[H0 H9] Hl].
    pose proof (refilled_lower _ now H0 Hl H9) as Hlow.
    pose proof (refilled_le_capacity (lookup_or_create k now s) now) as Hup.
    split; [|lra].
    destruct (Qle_bool 1 _) eqn:E.
    + apply Qle_bool_iff in E. lra.
    + lra.
  - rewrite lookup_after_call_ne in Hb' by exact Hne.
    exact (store_ok_weaken lo now s Hle Hs k' b' Hb').
Qed.

Lemma run_store_ok calls : forall lo hi s,
  store_ok lo s -> clock_from lo (map snd calls ++ [hi]) ->
  store_ok hi (snd (run calls s)).
Proof.
  induction calls as [|[k now] calls IH]; intros lo hi s Hs Hc.
  - simpl in Hc |- *. destruct Hc as [Hle _]. exact (store_ok_weaken lo hi s Hle Hs).
  - simpl in Hc. destruct Hc as [Hle Hc].
    rewrite run_cons. cbn [snd].
    exact (IH now hi _ (check_store_ok lo k now s Hs Hle) Hc).
Qed.

(** From the empty store, with readings that never step back up to [hi]. *)
Lemma run_from_empty_ok calls hi :
  nondecreasing (map snd calls ++ [hi]) -> store_ok hi (snd (run calls ∅)).
Proof.
  destruct calls as [|[k now] calls]; intros Hn.
  - apply store_ok_empty.
  - apply (run_store_ok ((k, now) :: calls) now hi ∅ (store_ok_empty now)).
    simpl in Hn |- *. split; [lra|exact Hn].
Qed.

Lemma nondecreasing_extend readings :
  nondecreasing readings -> exists hi, nondecreasing (readings ++ [hi]).
Proof.
  destruct readings as [|t rest]; simpl.
  - intros _. exists 0. exact I.
  - apply clock_from_extend.
Qed.

End Invariants.

(** C3, as stated, fails: the source reads the wall clock, and when a
    reading is lower than the stamp of the bucket the refill is negative.
    A first call at time 100 leaves 8 tokens; a second call at time 40 has
    elapsed = -60, refill = -41, and stores min(9, 8 - 41) = -33 tokens. *)
Lemma tokens_negative_after_clock_step_back :
  exists b,
    snd (run [("u:1"%string, 100); ("u:1"%string, 40)] ∅) !! "u:1"%string = Some b
    /\ tokens b == - 33
    /\ ~ (0 <= tokens b <= MAX_TOKENS).
Proof.
  eexists. split; [vm_compute; reflexivity|]. split; [reflexivity|].
  intros [H _]. apply (Qlt_not_le _ _ (eq_refl : - 33 < 0)). exact H.
Qed.

(** C3, amended.  After each call of any sequence of calls from the empty
    store, every bucket has tokens <= capacity, whatever the clock readings:
    the refill clamps at the capacity however long the key was idle.  A
    refused call stores the refilled count itself, without a decrement.
    When the clock readings of the calls never step back, 0 <= tokens holds
    after each call as well. *)
Theorem tokens_within_bounds (calls : list (string * Q)) (n : nat)
    (k : string) (b : bucket) :
  snd (run (take n calls) ∅) !! k = Some b ->
  tokens b <= MAX_TOKENS
  /\ (forall now : Q, refilled b now <= MAX_TOKENS)
  /\ (forall (now : Q) (r : Z) (s' : gmap string bucket),
        check_rate_limit k now (snd (run (take n calls) ∅)) = ((false, r), s') ->
        s' !! k = Some {| tokens := Qmin MAX_TOKENS
                                      (tokens b + (now - last_refill b) * REFILL_RATE);
                          last_refill := now |})
  /\ (nondecreasing (map snd calls) -> 0 <= tokens b).
Proof.
  intros Hb. split; [|split; [|split]].
  - refine (run_capped (take n calls) ∅ _ k b Hb).
    intros k' b' Hk'. rewrite lookup_empty in Hk'. discriminate.
  - intros now. apply refilled_le_capacity.
  - intros now r s' Hd.
    destruct (denied_key_known k now _ r s' Hd) as (old & Hk & _ & _ & Hs').
    rewrite Hb in Hk. injection Hk as <-. rewrite Hs'. apply lookup_insert_eq.
  - intros Hn.
    assert (Hn' : nondecreasing (map snd (take n calls))).
    { rewrite <- firstn_map. apply nondecreasing_take. exact Hn. }
    destruct (nondecreasing_extend _ Hn') as [hi Hhi].
    destruct (run_from_empty_ok (take n calls) hi Hhi k b Hb) as [[H0 _] _].
    exact H0.
Qed.

Lemma tokens_within_bounds_witness :
  snd (run (take 2 [("u:1"%string, 40); ("u:1"%string, 100)]) ∅) !! "u:1"%string
  = Some (Bucket 8 100)
  /\ nondecreasing (map snd [("u:1"%string, 40); ("u:1"%string, 100)])
  /\ 0 <= tokens (Bucket 8 100) <= MAX_TOKENS.
Proof.
  assert (Hb : snd (run (take 2 [("u:1"%string, 40); ("u:1"%string, 100)]) ∅)
               !! "u:1"%string = Some (Bucket 8 100)).
  { vm_compute. reflexivity. }
  assert (Hn : nondecreasing (map snd [("u:1"%string, 40); ("u:1"%string, 100)])).
  { simpl. split; [compute; discriminate|exact I]. }
  split; [exact Hb|]. split; [exact Hn|].
  destruct (tokens_within_bounds _ 2 "u:1" _ Hb) as (Hup & _ & _ & Hlow).
  split; [exact (Hlow Hn)|exact Hup].
Defined.




(** ** Further properties of [check_rate_limit] *)

Section MoreOneCall.

Implicit Types (k : string) (now : Q) (s : gmap string bucket) (b : bucket).

Lemma lookup_or_create_local k now s1 s2 :
  s1 !! k = s2 !! k -> lookup_or_create k now s1 = lookup_or_create k now s2.
Proof. intros H. unfold lookup_or_create. rewrite H. reflexivity. Qed.

Lemma lookup_after_call_local k now s1 s2 :
  s1 !! k = s2 !! k ->
  snd (check_rate_limit k now s1) !! k = snd (check_rate_limit k now s2) !! k.
Proof.
  intros H. rewrite !lookup_after_call, (lookup_or_create_local k now s1 s2 H).
  reflexivity.
Qed.

Lemma dom_after_call k now s :
  dom (snd (check_rate_limit k now s)) = {[k]} ∪ dom s.
Proof.
  rewrite check_rate_limit_eq. cbv zeta.
  destruct (Qle_bool 1 _); simpl; apply dom_insert_L.
Qed.

End MoreOneCall.

Lemma new_key_call (k : string) (now : Q) (s : gmap string bucket) :
  s !! k = None ->
  check_rate_limit k now s
  = ((true, 0%Z),
     <[k := Bucket (refilled (Bucket MAX_TOKENS now) now - 1) now]> s)
  /\ refilled (Bucket MAX_TOKENS now) now - 1 == 8.
Proof.
  intros Hk. pose proof (refilled_new_key now) as Hr. split.
  - rewrite check_admits; rewrite (lookup_or_create_None k now s Hk);
      [reflexivity|]. rewrite Hr. unfold_config. lra.
  - rewrite Hr. reflexivity.
Qed.

(** X1. A key that is not in the store is admitted whatever the clock
    reading, and the call stores for it a bucket with 8 tokens stamped with
    that reading; the store grows by exactly this entry. *)
Theorem new_key_admitted (k : string) (now : Q) (s : gmap string bucket) :
  s !! k = None ->
  fst (check_rate_limit k now s) = (true, 0%Z)
  /\ holds k (snd (check_rate_limit k now s)) 8 now
  /\ dom (snd (check_rate_limit k now s)) = {[k]} ∪ dom s
  /\ size (snd (check_rate_limit k now s)) = S (size s).
Proof.
  intros Hk.
  assert (Hr : refilled (lookup_or_create k now s) now == MAX_TOKENS).
  { rewrite (lookup_or_create_None k now s Hk). apply refilled_new_key. }
  assert (Ha : 1 <= refilled (lookup_or_create k now s) now)
    by (rewrite Hr; unfold_config; lra).
  split; [rewrite check_admits by exact Ha; reflexivity|].
  split; [|split].
  - eexists. split; [rewrite check_admits by exact Ha; apply lookup_insert_eq|].
    simpl. split; [rewrite Hr; reflexivity|reflexivity].
  - apply dom_after_call.
  - rewrite check_admits by exact Ha. simpl. apply map_size_insert_None. exact Hk.
Qed.

Lemma new_key_admitted_witness :
  drained_store !! "v:2"%string = None
  /\ fst (check_rate_limit "v:2" 1 drained_store) = (true, 0%Z).
Proof.
  assert (H : drained_store !! "v:2"%string = None) by reflexivity.
  split; [exact H|].
  exact (proj1 (new_key_admitted "v:2" 1 drained_store H)).
Defined.

(** X2. The store only grows: after any sequence of calls its keys are the
    keys it had together with the keys of the calls; no entry is ever
    removed. *)
Theorem store_keys_after_run (calls : list (string * Q)) (s : gmap string bucket) :
  dom (snd (run calls s)) = dom s ∪ list_to_set (map fst calls).
Proof.
  revert s. induction calls as [|[k now] calls IH]; intros s.
  - simpl. rewrite union_empty_r_L. reflexivity.
  - rewrite run_cons. cbn [snd]. rewrite IH, dom_after_call. simpl.
    rewrite (union_comm_L {[k]} (dom s)), (assoc_L (∪)). reflexivity.
Qed.

(** ** One key inside a run *)

Section Projection.

Implicit Types (k : string) (now : Q) (s : gmap string bucket) (b : bucket).

Lemma calls_of_cons_eq k now calls :
  calls_of k ((k, now) :: calls) = (k, now) :: calls_of k calls.
Proof. unfold calls_of. rewrite filter_cons_True; reflexivity. Qed.

Lemma calls_of_cons_ne k k' now calls :
  k' <> k -> calls_of k ((k', now) :: calls) = calls_of k calls.
Proof. intros H. unfold calls_of. rewrite filter_cons_False; [reflexivity|exact H]. Qed.

Lemma verdicts_of_cons_eq k now calls v vs :
  verdicts_of k ((k, now) :: calls) (v :: vs) = v :: verdicts_of k calls vs.
Proof. simpl. destruct (decide (k = k)); [reflexivity|congruence]. Qed.

Lemma verdicts_of_cons_ne k k' now calls v vs :
  k' <> k -> verdicts_of k ((k', now) :: calls) (v :: vs) = verdicts_of k calls vs.
Proof. intros H. simpl. destruct (decide (k' = k)); [congruence|reflexivity]. Qed.

Lemma run_projection_from k calls : forall s1 s2,
  s1 !! k = s2 !! k ->
  verdicts_of k calls (fst (run calls s1)) = fst (run (calls_of k calls) s2)
  /\ snd (run calls s1) !! k = snd (run (calls_of k calls) s2) !! k.
Proof.
  induction calls as [|[k' now] calls IH]; intros s1 s2 Hs.
  - simpl. split; [reflexivity|exact Hs].
  - rewrite run_cons. cbn [fst snd]. destruct (decide (k' = k)) as [->|Hne].
    + rewrite calls_of_cons_eq, verdicts_of_cons_eq, run_cons. cbn [fst snd].
      destruct (IH _ _ (lookup_after_call_local k now s1 s2 Hs)) as [Hv Hl].
      rewrite Hv, (verdict_local k now s1 s2 Hs). split; [reflexivity|exact Hl].
    + rewrite calls_of_cons_ne, verdicts_of_cons_ne by exact Hne.
      apply IH. rewrite lookup_after_call_ne by exact Hne. exact Hs.
Qed.

End Projection.

(** X3. Inside any run, what a key experiences is what it would experience
    alone: the verdicts returned to the calls for the key, and the bucket
    left for it, are those of the run restricted to the calls for that key.
    Traffic for other keys never changes them. *)
Theorem run_projection (k : string) (calls : list (string * Q))
    (s : gmap string bucket) :
  verdicts_of k calls (fst (run calls s)) = fst (run (calls_of k calls) s)
  /\ snd (run calls s) !! k = snd (run (calls_of k calls) s) !! k.
Proof. apply run_projection_from. reflexivity. Qed.

(** ** The admission rate *)

Section Rate.

Implicit Types (k : string) (now : Q) (s : gmap string bucket) (b : bucket).

Lemma admissions_cons (v : bool * Z) (vs : list (bool * Z)) :
  admissions (v :: vs) = ((if fst v then 1 else 0) + admissions vs)%nat.
Proof.
  unfold admissions. destruct v as [[|] r].
  - rewrite filter_cons_True by reflexivity. reflexivity.
  - rewrite filter_cons_False by (simpl; discriminate). reflexivity.
Qed.

Definition count_Q (n : nat) : Q := inject_Z (Z.of_nat n).

Lemma count_Q_S (n : nat) : count_Q (S n) == 1 + count_Q n.
Proof.
  unfold count_Q. rewrite Nat2Z.inj_succ. unfold Z.succ.
  rewrite inject_Z_plus. change (inject_Z 1) with 1. ring.
Qed.

(** What one call does to "admissions so far + tokens": it adds at most
    the refill of the elapsed time, whatever the sign of that time. *)
Lemma call_budget k now s b :
  s !! k = Some b ->
  exists b', snd (check_rate_limit k now s) !! k = Some b'
    /\ last_refill b' = now
    /\ count_Q (if fst (fst (check_rate_limit k now s)) then 1 else 0) + tokens b'
       <= tokens b + (now - last_refill b) * REFILL_RATE.
Proof.
  intros Hb. eexists. split; [apply lookup_after_call|]. split; [reflexivity|].
  rewrite check_rate_limit_eq. cbv zeta. simpl.
  rewrite (lookup_or_create_Some k now s b Hb).
  assert (Hm : refilled b now <= tokens b + (now - last_refill b) * REFILL_RATE)
    by apply Q.le_min_r.
  destruct (Qle_bool 1 (refilled b now)); simpl.
  - change (count_Q 1) with 1. lra.
  - change (count_Q 0) with 0. lra.
Qed.

Lemma budget_from k calls : forall s b,
  s !! k = Some b ->
  exists b', snd (run calls s) !! k = Some b'
    /\ count_Q (admissions (verdicts_of k calls (fst (run calls s)))) + tokens b'
       <= tokens b + (last_refill b' - last_refill b) * REFILL_RATE.
Proof.
  induction calls as [|[k' now] calls IH]; intros s b Hb.
  - exists b. split; [exact Hb|].
    simpl. change (count_Q (admissions [])) with 0. unfold_config. lra.
  - rewrite run_cons. cbn [fst snd]. destruct (decide (k' = k)) as [->|Hne].
    + destruct (call_budget k now s b Hb) as (b1 & Hb1 & Hst & Hbud).
      destruct (IH _ b1 Hb1) as (b' & Hb' & Hbud').
      exists b'. split; [exact Hb'|].
      rewrite verdicts_of_cons_eq, admissions_cons.
      set (a := admissions _) in *. rewrite Hst in Hbud'.
      destruct (fst (fst (check_rate_limit k now s))).
      * change (1 + a)%nat with (S a). rewrite count_Q_S.
        change (count_Q 1) with 1 in Hbud. unfold_config. lra.
      * change (0 + a)%nat with a. change (count_Q 0) with 0 in Hbud.
        unfold_config. lra.
    + rewrite verdicts_of_cons_ne by exact Hne.
      apply IH. rewrite lookup_after_call_ne by exact Hne. exact Hb.
Qed.

Lemma budget_from_absent k calls : forall s t1,
  s !! k = None -> first_reading k calls = Some t1 ->
  exists b', snd (run calls s) !! k = Some b'
    /\ count_Q (admissions (verdicts_of k calls (fst (run calls s)))) + tokens b'
       <= MAX_TOKENS + (last_refill b' - t1) * REFILL_RATE.
Proof.
  induction calls as [|[k' now] calls IH]; intros s t1 Hk Hf.
  - discriminate.
  - rewrite run_cons. cbn [fst snd]. destruct (decide (k' = k)) as [->|Hne].
    + unfold first_reading in Hf. rewrite calls_of_cons_eq in Hf. simpl in Hf.
      injection Hf as <-.
      destruct (new_key_call k now s Hk) as [Hc Ht1].
      assert (Hb1 : snd (check_rate_limit k now s) !! k
                    = Some (Bucket (refilled (Bucket MAX_TOKENS now) now - 1) now))
        by (rewrite Hc; apply lookup_insert_eq).
      destruct (budget_from k calls _ _ Hb1) as (b' & Hb' & Hbud).
      exists b'. split; [exact Hb'|].
      assert (Hv : fst (check_rate_limit k now s) = (true, 0%Z))
        by (rewrite Hc; reflexivity).
      rewrite verdicts_of_cons_eq, admissions_cons, Hv.
      cbn [fst tokens last_refill] in *.
      set (a := admissions _) in *.
      change (1 + a)%nat with (S a). rewrite count_Q_S.
      unfold_config. lra.
    + rewrite verdicts_of_cons_ne by exact Hne.
      unfold first_reading in Hf. rewrite calls_of_cons_ne in Hf by exact Hne.
      apply IH; [|exact Hf].
      rewrite lookup_after_call_ne by exact Hne. exact Hk.
Qed.

(** The stamp of a bucket is the reading of the last call for its key. *)
Lemma stamp_is_last_reading k calls : forall s b' tn,
  snd (run calls s) !! k = Some b' -> last_reading k calls = Some tn ->
  last_refill b' = tn.
Proof.
  induction calls as [|[k' now] calls IH]; intros s b' tn Hb' Hl.
  - discriminate.
  - rewrite run_cons in Hb'. cbn [snd] in Hb'.
    destruct (decide (k' = k)) as [->|Hne].
    + unfold last_reading in Hl. rewrite calls_of_cons_eq in Hl. simpl map in Hl.
      rewrite last_cons in Hl.
      destruct (last (map snd (calls_of k calls))) as [t|] eqn:El.
      * injection Hl as <-. exact (IH _ b' t Hb' El).
      * injection Hl as <-. apply last_None in El.
        apply map_eq_nil in El.
        destruct (run_projection_from k calls (snd (check_rate_limit k now s))
                    (snd (check_rate_limit k now s)) eq_refl) as [_ Hp].
        rewrite El in Hp. simpl in Hp. rewrite Hp, lookup_after_call in Hb'.
        injection Hb' as <-. reflexivity.
    + unfold last_reading in Hl. rewrite calls_of_cons_ne in Hl by exact Hne.
      exact (IH _ b' tn Hb' Hl).
Qed.

End Rate.



(** ** Retry time and waiting *)





(** ** How calls compose *)

Section Composition.

Implicit Types (k : string) (now : Q) (s : gmap string bucket) (b : bucket).

(** The verdict and the stored count depend on the bucket only through the
    refilled count, up to equality of rationals. *)
Lemma check_congruent k now s1 s2 :
  refilled (lookup_or_create k now s1) now == refilled (lookup_or_create k now s2) now ->
  fst (check_rate_limit k now s1) = fst (check_rate_limit k now s2)
  /\ exists b1 b2,
       snd (check_rate_limit k now s1) !! k = Some b1
       /\ snd (check_rate_limit k now s2) !! k = Some b2
       /\ tokens b1 == tokens b2 /\ last_refill b1 = last_refill b2.
Proof.
  intros He. rewrite !check_rate_limit_eq. cbv zeta.
  rewrite <- (Qleb_comp 1 1 (Qeq_refl 1) _ _ He).
  destruct (Qle_bool 1 _); simpl.
  - split; [reflexivity|]. eexists. eexists.
    split; [apply lookup_insert_eq|]. split; [apply lookup_insert_eq|].
    simpl. split; [rewrite He; reflexivity|reflexivity].
  - split.
    + f_equal. apply py_round_comp. rewrite He. reflexivity.
    + eexists. eexists.
      split; [apply lookup_insert_eq|]. split; [apply lookup_insert_eq|].
      simpl. split; [exact He|reflexivity].
Qed.

End Composition.

(** X7. Full recovery.  A bucket whose count is not negative and that has
    been idle for at least 540/41 seconds (about 13.2 s) is back at the
    capacity, however long the idleness: the next call is admitted and leaves
    exactly 8 tokens. *)
Theorem idle_bucket_is_full (k : string) (now : Q) (s : gmap string bucket)
    (b : bucket) :
  s !! k = Some b ->
  0 <= tokens b ->
  last_refill b + (540 # 41) <= now ->
  fst (check_rate_limit k now s) = (true, 0%Z)
  /\ holds k (snd (check_rate_limit k now s)) 8 now.
Proof.
  intros Hb H0 Hidle.
  assert (Hr : refilled (lookup_or_create k now s) now == MAX_TOKENS).
  { rewrite (lookup_or_create_Some k now s b Hb). unfold refilled. unfold_config.
    case_min; rewrite Emin; lra. }
  assert (Ha : 1 <= refilled (lookup_or_create k now s) now)
    by (rewrite Hr; unfold_config; lra).
  rewrite check_admits by exact Ha. split; [reflexivity|].
  eexists. split; [apply lookup_insert_eq|]. simpl.
  split; [rewrite Hr; reflexivity|reflexivity].
Qed.

Lemma idle_bucket_is_full_witness :
  drained_store !! "u:1"%string = Some (Bucket 0 3)
  /\ 0 <= tokens (Bucket 0 3)
  /\ last_refill (Bucket 0 3) + (540 # 41) <= 3603
  /\ fst (check_rate_limit "u:1" 3603 drained_store) = (true, 0%Z).
Proof.
  assert (Hb : drained_store !! "u:1"%string = Some (Bucket 0 3)) by reflexivity.
  assert (H0 : 0 <= tokens (Bucket 0 3)) by (compute; discriminate).
  assert (Hi : last_refill (Bucket 0 3) + (540 # 41) <= 3603) by (compute; discriminate).
  split; [exact Hb|]. split; [exact H0|]. split; [exact Hi|].
  exact (proj1 (idle_bucket_is_full "u:1" 3603 drained_store _ Hb H0 Hi)).
Defined.

(** X8. No double refill at one instant.  After any call at a reading, a
    second call for the same key at the same reading gains nothing from the
    refill: it sees exactly the count the first call stored, is admitted
    exactly when that count is at least 1, and then leaves that count less
    one. *)
Theorem same_instant_no_double_refill (k : string) (now : Q)
    (s : gmap string bucket) :
  exists b1,
    snd (check_rate_limit k now s) !! k = Some b1
    /\ refilled b1 now == tokens b1
    /\ (fst (fst (check_rate_limit k now (snd (check_rate_limit k now s)))) = true
        <-> 1 <= tokens b1)
    /\ exists b2,
         snd (check_rate_limit k now (snd (check_rate_limit k now s))) !! k = Some b2
         /\ last_refill b2 = now
         /\ tokens b2 == (if Qle_bool 1 (tokens b1) then tokens b1 - 1 else tokens b1).
Proof.
  eexists. split; [apply lookup_after_call|].
  set (b1 := Bucket _ now).
  assert (Hb1 : snd (check_rate_limit k now s) !! k = Some b1) by apply lookup_after_call.
  assert (Hr : refilled b1 now == tokens b1).
  { apply refilled_same_instant; [reflexivity|]. subst b1. simpl.
    pose proof (stored_tokens_le_refilled k now s) as H1.
    pose proof (refilled_le_capacity (lookup_or_create k now s) now) as H2.
    cbv zeta in H1. lra. }
  clearbody b1. split; [exact Hr|]. split.
  - rewrite admitted_iff, (lookup_or_create_Some k now _ b1 Hb1), Hr. reflexivity.
  - eexists. split; [apply lookup_after_call|]. split; [reflexivity|].
    cbn [tokens]. cbv zeta. rewrite (lookup_or_create_Some k now _ b1 Hb1).
    rewrite (Qleb_comp 1 1 (Qeq_refl 1) _ _ Hr).
    destruct (Qle_bool 1 (tokens b1)); rewrite Hr; reflexivity.
Qed.



(** ** The endpoint [validate] *)

Section Endpoint.

Lemma append_assoc (x y z : string) : (x +:+ y) +:+ z = x +:+ (y +:+ z).
Proof.
  induction x as [|c x IH]; [reflexivity|].
  change (String c ((x +:+ y) +:+ z) = String c (x +:+ (y +:+ z))).
  rewrite IH. reflexivity.
Qed.

Lemma user_key_of_shift (u x ip : string) :
  user_key_of u (x +:+ ":" +:+ ip) = user_key_of (u +:+ ":" +:+ x) ip.
Proof.
  unfold user_key_of. rewrite (append_assoc u), (append_assoc ":" x). reflexivity.
Qed.

Lemma validate_eq (data : RequestBody) (client_ip : string) (now : Q)
    (s : gmap string bucket) :
  String.eqb (category data) "Rate Limiting" = true ->
  validate data client_ip now s =
  (inr (if fst (fst (check_rate_limit (user_key_of (userId data) client_ip) now s))
        then {| status_code := 200;
                blocked := false;
                reason := "Input passed all security checks";
                sanitizedOutput := Some (input data);
                confidence := 95 / 100;
                headers := [] |}
        else {| status_code := 429;
                blocked := true;
                reason := "Rate limit exceeded";
                sanitizedOutput := None;
                confidence := 99 / 100;
                headers :=
                  [("Retry-After"%string,
                    pretty (snd (fst (check_rate_limit
                                        (user_key_of (userId data) client_ip) now s))))] |}),
   snd (check_rate_limit (user_key_of (userId data) client_ip) now s)).
Proof.
  intros Hcat. unfold validate, user_key_of. rewrite Hcat. simpl negb. cbv iota.
  destruct (check_rate_limit _ now s) as [[[|] retry_after] s']; reflexivity.
Qed.

End Endpoint.

(** X10. A request whose category is not exactly "Rate Limiting" is
    answered with the exception 400 "Invalid category" before the limiter is
    consulted: the store is returned as it was, so no token is spent and no
    bucket is created for the caller. *)
Theorem invalid_category_spends_nothing (data : RequestBody) (client_ip : string)
    (now : Q) (s : gmap string bucket) :
  category data <> "Rate Limiting"%string ->
  validate data client_ip now s
  = (inl {| exc_status_code := 400; detail := "Invalid category" |}, s).
Proof.
  intros Hne. unfold validate.
  apply String.eqb_neq in Hne. rewrite Hne. reflexivity.
Qed.

Lemma invalid_category_spends_nothing_witness :
  category {| userId := "u"; input := "hello"; category := "rate limiting" |}
  <> "Rate Limiting"%string
  /\ validate {| userId := "u"; input := "hello"; category := "rate limiting" |}
       "1" 4 drained_store
     = (inl {| exc_status_code := 400; detail := "Invalid category" |}, drained_store).
Proof.
  assert (H : category {| userId := "u"; input := "hello";
                          category := "rate limiting" |}
              <> "Rate Limiting"%string) by discriminate.
  split; [exact H|].
  exact (invalid_category_spends_nothing _ "1" 4 drained_store H).
Defined.

(** X11. For a request of category "Rate Limiting" the endpoint is the
    limiter under the key userId:client_ip.  It leaves the store that
    check_rate_limit leaves; when the call is admitted the reply is 200,
    not blocked, with the input returned unchanged as sanitizedOutput and no
    headers; when it is refused the reply is 429, blocked, without the
    input, and its only header is Retry-After with the retry time in
    decimal. *)
Theorem validate_follows_limiter (data : RequestBody) (client_ip : string)
    (now : Q) (s : gmap string bucket) :
  category data = "Rate Limiting"%string ->
  snd (validate data client_ip now s)
  = snd (check_rate_limit (user_key_of (userId data) client_ip) now s)
  /\ exists rsp,
       fst (validate data client_ip now s) = inr rsp
       /\ (fst (fst (check_rate_limit (user_key_of (userId data) client_ip) now s)) = true ->
           status_code rsp = 200%Z /\ blocked rsp = false
           /\ sanitizedOutput rsp = Some (input data) /\ headers rsp = [])
       /\ (fst (fst (check_rate_limit (user_key_of (userId data) client_ip) now s)) = false ->
           status_code rsp = 429%Z /\ blocked rsp = true
           /\ sanitizedOutput rsp = None
           /\ headers rsp =
              [("Retry-After"%string,
                pretty (snd (fst (check_rate_limit
                                    (user_key_of (userId data) client_ip) now s))))]).
Proof.
  intros Hcat. apply String.eqb_eq in Hcat.
  rewrite (validate_eq data client_ip now s Hcat). cbn [fst snd].
  split; [reflexivity|]. eexists. split; [reflexivity|].
  destruct (fst (fst (check_rate_limit _ now s))); split; intros H;
    try discriminate; repeat split; reflexivity.
Qed.

Lemma validate_follows_limiter_witness :
  category {| userId := "u"; input := "hello"; category := "Rate Limiting" |}
  = "Rate Limiting"%string
  /\ snd (validate {| userId := "u"; input := "hello"; category := "Rate Limiting" |}
            "1" 4 drained_store)
     = snd (check_rate_limit "u:1" 4 drained_store).
Proof.
  assert (H : category {| userId := "u"; input := "hello";
                          category := "Rate Limiting" |}
              = "Rate Limiting"%string) by reflexivity.
  split; [exact H|].
  exact (proj1 (validate_follows_limiter _ "1" 4 drained_store H)).
Defined.

(** X12. The key does not separate its two parts.  A user id u seen from the
    address x:ip and the user id u:x seen from the address ip (for instance
    u from 1:2::3 and u:1 from 2::3) get the same key: every request of the
    one is answered, and changes the store, exactly as the same request of
    the other would, so the two share one bucket. *)
Theorem colon_in_user_id_shares_bucket (u x ip inp cat : string) (now : Q)
    (s : gmap string bucket) :
  validate {| userId := u; input := inp; category := cat |}
           (x +:+ ":" +:+ ip) now s
  = validate {| userId := u +:+ ":" +:+ x; input := inp; category := cat |}
             ip now s.
Proof.
  unfold validate. simpl.
  destruct (negb (String.eqb cat "Rate Limiting")); [reflexivity|].
  change (u +:+ ":" +:+ x +:+ ":" +:+ ip) with (user_key_of u (x +:+ ":" +:+ ip)).
  change ((u +:+ ":" +:+ x) +:+ ":" +:+ ip) with (user_key_of (u +:+ ":" +:+ x) ip).
  rewrite user_key_of_shift. reflexivity.
Qed.

Lemma user_key_injective_aux (u1 u2 ip1 ip2 : string) :
  colon_free u1 -> colon_free u2 ->
  user_key_of u1 ip1 = user_key_of u2 ip2 ->
  u1 = u2 /\ ip1 = ip2.
Proof.
  unfold user_key_of. revert u2.
  induction u1 as [|c1 u1 IH]; intros [|c2 u2] H1 H2 Hk.
  - change (String ":" ip1 = String ":" ip2) in Hk.
    split; [reflexivity|]. congruence.
  - change (String ":" ip1 = String c2 (u2 +:+ ":" +:+ ip2)) in Hk.
    destruct H2 as [Hc _]. injection Hk as Hc' _. congruence.
  - change (String c1 (u1 +:+ ":" +:+ ip1) = String ":" ip2) in Hk.
    destruct H1 as [Hc _]. injection Hk as Hc' _. congruence.
  - change (String c1 (u1 +:+ ":" +:+ ip1) = String c2 (u2 +:+ ":" +:+ ip2)) in Hk.
    destruct H1 as [_ H1], H2 as [_ H2]. injection Hk as -> Hk.
    destruct (IH u2 H1 H2 Hk) as [-> ->]. split; reflexivity.
Qed.

(** X13. When user ids contain no colon the key is faithful: two requests
    get the same key only if they have the same user id and the same
    address. *)
Theorem user_key_injective (u1 u2 ip1 ip2 : string) :
  colon_free u1 -> colon_free u2 ->
  user_key_of u1 ip1 = user_key_of u2 ip2 ->
  u1 = u2 /\ ip1 = ip2.
Proof.
  intros H1 H2 Hk. exact (user_key_injective_aux u1 u2 ip1 ip2 H1 H2 Hk).
Qed.

Lemma user_key_injective_witness :
  colon_free "alice" /\ colon_free "alice"
  /\ user_key_of "alice" "10.0.0.1" = user_key_of "alice" "10.0.0.1"
  /\ "alice"%string = "alice"%string /\ "10.0.0.1"%string = "10.0.0.1"%string.
Proof.
  assert (Hc : colon_free "alice") by (simpl; repeat split; discriminate).
  assert (Hk : user_key_of "alice" "10.0.0.1" = user_key_of "alice" "10.0.0.1")
    by reflexivity.
  split; [exact Hc|]. split; [exact Hc|]. split; [exact Hk|].
  exact (user_key_injective "alice" "alice" "10.0.0.1" "10.0.0.1" Hc Hc Hk).
Defined.

(** ** The burst in double precision *)

Section Binary64Burst.

Lemma float_sub_diag (T : spec_float) :
  finite_float T -> Binary64.float_sub T T = S754_zero false.
Proof.
  destruct T as [[|]|[|]| |sg m e]; intros HT;
    try (exfalso; exact HT); try reflexivity.
  unfold Binary64.float_sub, SFsub.
  rewrite Z.min_id. unfold shl_align. rewrite Z.sub_diag. reflexivity.
Qed.

(** A call at the reading of the stamp of the bucket it works on. *)
Lemma binary64_same_instant_call (k : string) (T q : spec_float)
    (s : gmap string Binary64.bucket) :
  finite_float T ->
  (s !! k = None /\ q = Binary64.MAX_TOKENS
   \/ s !! k = Some (Binary64.Bucket q T)) ->
  Binary64.check_rate_limit k T s
  = (fst (same_instant_step q),
     <[k := Binary64.Bucket (snd (same_instant_step q)) T]> s).
Proof.
  intros HT Hs. unfold Binary64.check_rate_limit, same_instant_step.
  assert (Hb : match s !! k with
               | Some b => b
               | None => Binary64.Bucket Binary64.MAX_TOKENS T
               end = Binary64.Bucket q T).
  { destruct Hs as [[-> ->]| ->]; reflexivity. }
  rewrite Hb. cbn [Binary64.tokens Binary64.last_refill].
  rewrite (float_sub_diag T HT).
  destruct (SFleb _ _); reflexivity.
Qed.

Lemma binary64_same_instant_run (k : string) (T : spec_float) (n : nat) :
  finite_float T -> forall (q : spec_float) (s : gmap string Binary64.bucket),
  (s !! k = None /\ q = Binary64.MAX_TOKENS
   \/ s !! k = Some (Binary64.Bucket q T)) ->
  fst (Binary64.run (replicate n (k, T)) s) = same_instant_verdicts n q.
Proof.
  intros HT. induction n as [|n IH]; intros q s Hs; [reflexivity|].
  change (replicate (S n) (k, T)) with ((k, T) :: replicate n (k, T)).
  cbn [Binary64.run]. rewrite (binary64_same_instant_call k T q s HT Hs).
  specialize (IH (snd (same_instant_step q))
                 (<[k := Binary64.Bucket (snd (same_instant_step q)) T]> s)
                 (or_intror (lookup_insert_eq _ _ _))).
  destruct (Binary64.run (replicate n (k, T)) _) as [rs s'].
  cbn [fst] in IH |- *. rewrite IH. reflexivity.
Qed.

(** Once the bucket holds +0 tokens, every call at that instant is refused
    with a retry time of one second. *)
Lemma same_instant_verdicts_empty (m : nat) :
  same_instant_verdicts m (S754_zero false) = replicate m (Some (false, 1%Z)).
Proof.
  induction m as [|m IH]; [reflexivity|].
  cbn [same_instant_verdicts replicate].
  change (snd (same_instant_step (S754_zero false))) with (S754_zero false).
  rewrite IH. f_equal.
Qed.

Lemma same_instant_verdicts_add (n m : nat) : forall q,
  same_instant_verdicts (n + m) q
  = same_instant_verdicts n q
    ++ same_instant_verdicts m
         (Nat.iter n (fun x => snd (same_instant_step x)) q).
Proof.
  induction n as [|n IH]; intros q; [reflexivity|].
  rewrite Nat.iter_succ_r.
  cbn [Nat.add same_instant_verdicts app]. rewrite IH. reflexivity.
Qed.

End Binary64Burst.

(** X14. The burst in double precision.  With the arithmetic of the source
    (IEEE 754 binary64), for every key not yet in the store and every finite
    clock reading T, 9 + m calls at T return nine admissions followed by m
    refusals, each with a retry time of 1 second. *)
Theorem binary64_capacity_burst (k : string) (T : spec_float) (m : nat)
    (s : gmap string Binary64.bucket) :
  finite_float T ->
  s !! k = None ->
  fst (Binary64.run (replicate (9 + m) (k, T)) s)
  = replicate 9 (Some (true, 0%Z)) ++ replicate m (Some (false, 1%Z)).
Proof.
  intros HT Hk.
  rewrite (binary64_same_instant_run k T (9 + m) HT Binary64.MAX_TOKENS s
             (or_introl (conj Hk eq_refl))).
  rewrite same_instant_verdicts_add.
  replace (Nat.iter 9 (fun x => snd (same_instant_step x)) Binary64.MAX_TOKENS)
    with (S754_zero false) by (vm_compute; reflexivity).
  rewrite same_instant_verdicts_empty.
  replace (same_instant_verdicts 9 Binary64.MAX_TOKENS)
    with (replicate 9 (Some (true, 0%Z))) by (vm_compute; reflexivity).
  reflexivity.
Qed.

Lemma binary64_capacity_burst_witness :
  finite_float (Binary64.of_int 1700000000)
  /\ (∅ : gmap string Binary64.bucket) !! "alice:10.0.0.1"%string = None
  /\ fst (Binary64.run (replicate (9 + 3)
                          ("alice:10.0.0.1"%string, Binary64.of_int 1700000000)) ∅)
     = replicate 9 (Some (true, 0%Z)) ++ replicate 3 (Some (false, 1%Z)).
Proof.
  assert (HT : finite_float (Binary64.of_int 1700000000)) by exact I.
  assert (Hk : (∅ : gmap string Binary64.bucket) !! "alice:10.0.0.1"%string = None)
    by reflexivity.
  split; [exact HT|]. split; [exact Hk|].
  exact (binary64_capacity_burst "alice:10.0.0.1" _ 3 ∅ HT Hk).
Defined.

(** ** A client that paces itself *)

Section Pacing.

Implicit Types (k : string) (now : Q) (s : gmap string bucket) (b : bucket).

Lemma calls_of_keys k calls :
  calls_of k calls = map (pair k) (map snd (calls_of k calls)).
Proof.
  induction calls as [|[k' now] calls IH]; [reflexivity|].
  destruct (decide (k' = k)) as [->|Hne].
  - rewrite calls_of_cons_eq. simpl. rewrite <- IH. reflexivity.
  - rewrite calls_of_cons_ne by exact Hne. exact IH.
Qed.

(** A call at least 60/41 seconds after the stamp of a bucket that is not
    negative is admitted, and leaves a bucket that is not negative. *)
Lemma paced_call k now s b :
  s !! k = Some b -> 0 <= tokens b -> last_refill b + (60 # 41) <= now ->
  fst (check_rate_limit k now s) = (true, 0%Z)
  /\ exists b', snd (check_rate_limit k now s) !! k = Some b'
       /\ 0 <= tokens b' /\ last_refill b' = now.
Proof.
  intros Hb H0 Hgap.
  assert (Ha : 1 <= refilled (lookup_or_create k now s) now).
  { rewrite (lookup_or_create_Some k now s b Hb). unfold refilled. unfold_config.
    case_min; rewrite Emin; lra. }
  rewrite check_admits by exact Ha. split; [reflexivity|].
  eexists. split; [apply lookup_insert_eq|]. simpl. split; [lra|reflexivity].
Qed.

Lemma paced_run_from k (readings : list Q) : forall s b,
  s !! k = Some b -> 0 <= tokens b ->
  spaced_from (60 # 41) (last_refill b) readings ->
  fst (run (map (pair k) readings) s) = replicate (length readings) (true, 0%Z).
Proof.
  induction readings as [|t rest IH]; intros s b Hb H0 Hsp; [reflexivity|].
  destruct Hsp as [Hgap Hsp]. simpl map. rewrite run_cons. cbn [fst].
  destruct (paced_call k t s b Hb H0 Hgap) as (Hv & b' & Hb' & H0' & Hst).
  rewrite Hv. rewrite <- Hst in Hsp.
  rewrite (IH _ b' Hb' H0' Hsp). reflexivity.
Qed.

End Pacing.

(** X15. A client that paces itself is never refused.  In any run from the
    empty store, if the calls for a key are at least 60/41 seconds (about
    1.46 s) apart, every one of them is admitted, whatever the other keys
    do. *)
Theorem paced_client_never_refused (k : string) (calls : list (string * Q)) :
  spaced (60 # 41) (map snd (calls_of k calls)) ->
  verdicts_of k calls (fst (run calls ∅))
  = replicate (length (calls_of k calls)) (true, 0%Z).
Proof.
  intros Hsp.
  destruct (run_projection_from k calls ∅ ∅ eq_refl) as [-> _].
  replace (length (calls_of k calls)) with (length (map snd (calls_of k calls)))
    by apply length_map.
  pose proof (calls_of_keys k calls) as Hk.
  set (l := map snd (calls_of k calls)) in *. rewrite Hk. clearbody l. clear Hk.
  destruct l as [|t rest]; [reflexivity|].
  simpl in Hsp. simpl map. rewrite run_cons. cbn [fst].
  destruct (new_key_call k t ∅ (lookup_empty k)) as [Hc Ht].
  rewrite Hc. cbn [fst snd].
  rewrite (paced_run_from k rest _ _ (lookup_insert_eq _ _ _)); cbn [tokens last_refill].
  - reflexivity.
  - lra.
  - exact Hsp.
Qed.

Lemma paced_client_never_refused_witness :
  spaced (60 # 41)
    (map snd (calls_of "u:1" [("u:1"%string, 0); ("v:2"%string, 1); ("u:1"%string, 2)]))
  /\ verdicts_of "u:1" [("u:1"%string, 0); ("v:2"%string, 1); ("u:1"%string, 2)]
       (fst (run [("u:1"%string, 0); ("v:2"%string, 1); ("u:1"%string, 2)] ∅))
     = [(true, 0%Z); (true, 0%Z)].
Proof.
  assert (H : spaced (60 # 41)
                (map snd (calls_of "u:1"
                            [("u:1"%string, 0); ("v:2"%string, 1); ("u:1"%string, 2)]))).
  { simpl. split; [compute; discriminate|exact I]. }
  split; [exact H|].
  exact (paced_client_never_refused "u:1" _ H).
Defined.

(** X16. Requests that differ in user id or in address do not disturb each
    other, provided the user ids contain no colon: a request of one caller
    leaves unchanged the reply that any later request of the other caller
    gets. *)
Theorem validate_callers_independent (d1 d2 : RequestBody) (ip1 ip2 : string)
    (t1 t2 : Q) (s : gmap string bucket) :
  colon_free (userId d1) -> colon_free (userId d2) ->
  userId d1 <> userId d2 \/ ip1 <> ip2 ->
  fst (validate d2 ip2 t2 (snd (validate d1 ip1 t1 s)))
  = fst (validate d2 ip2 t2 s).
Proof.
  intros Hc1 Hc2 Hdiff.
  assert (Hne : user_key_of (userId d1) ip1 <> user_key_of (userId d2) ip2).
  { intros Hk. destruct (user_key_injective_aux _ _ _ _ Hc1 Hc2 Hk) as [Hu Hi].
    destruct Hdiff; congruence. }
  destruct (String.eqb (category d1) "Rate Limiting") eqn:E1.
  - rewrite (validate_eq d1 ip1 t1 s E1). cbn [snd].
    destruct (String.eqb (category d2) "Rate Limiting") eqn:E2.
    + rewrite !(validate_eq d2 ip2 t2 _ E2). cbn [fst].
      rewrite (verdict_local (user_key_of (userId d2) ip2) t2 _ s
                 (lookup_after_call_ne _ _ t1 s Hne)).
      reflexivity.
    + unfold validate. rewrite E2. reflexivity.
  - unfold validate at 2. rewrite E1. reflexivity.
Qed.

Lemma validate_callers_independent_witness :
  colon_free "alice" /\ colon_free "bob"
  /\ ("alice"%string <> "bob"%string \/ "10.0.0.1"%string <> "10.0.0.1"%string)
  /\ fst (validate {| userId := "bob"; input := "x"; category := "Rate Limiting" |}
            "10.0.0.1" 2
            (snd (validate {| userId := "alice"; input := "y";
                              category := "Rate Limiting" |} "10.0.0.1" 1 ∅)))
     = fst (validate {| userId := "bob"; input := "x"; category := "Rate Limiting" |}
              "10.0.0.1" 2 ∅).
Proof.
  assert (Ha : colon_free "alice") by (simpl; repeat split; discriminate).
  assert (Hb : colon_free "bob") by (simpl; repeat split; discriminate).
  assert (Hd : "alice"%string <> "bob"%string \/ "10.0.0.1"%string <> "10.0.0.1"%string)
    by (left; discriminate).
  split; [exact Ha|]. split; [exact Hb|]. split; [exact Hd|].
  exact (validate_callers_independent
           {| userId := "alice"; input := "y"; category := "Rate Limiting" |}
           {| userId := "bob"; input := "x"; category := "Rate Limiting" |}
           "10.0.0.1" "10.0.0.1" 1 2 ∅ Ha Hb Hd).
Defined.
